(** * A shallow embedding of the core pipeline of tensile (src/tensile.go)

    The consumer is modelled record by record: the Go switch over a
    [response] becomes [consumer_step], the [for r := range respChan] loop
    becomes [consumer_loop] over the list of records the result channel
    delivers.  The Go globals [numErr] and [maxErr] become a field of the
    consumer state and a parameter.  Go's [int64] / [int] counters are
    modelled as [Z] with the two's-complement wrap-around written out
    ([wrap64]).  A nil-pointer dereference is a panic: the [Panicked]
    outcome.  The cancellation channel [quit] and [killWorkers] are
    modelled separately as a small-step machine, together with the
    goroutines that may receive from it concurrently. *)

From Stdlib Require Import ZArith List String Ascii Bool Lia.
Import ListNotations.
Open Scope Z_scope.

(** ** Machine integers *)

(** Two's-complement wrap-around of a 64-bit signed integer ([int64], and
    Go's [int] on 64-bit targets). *)
Definition wrap64 (z : Z) : Z := (z + 2 ^ 63) mod 2 ^ 64 - 2 ^ 63.

Definition in_int64 (z : Z) : Prop := - 2 ^ 63 <= z < 2 ^ 63.

(** ** Data model *)

(** The fields of [*http.Response] that the consumer reads.  [Body] is an
    identity for the response body, so that closing it can be observed. *)
Record Response := mkResponse {
  StatusCode : Z;
  ContentLength : Z;
  Body : nat
}.

(** [type response struct { *http.Response; err error }]: the embedded
    pointer may be nil ([None]), and so may the error. *)
Record response := mkresponse {
  Resp : option Response;
  err : option string
}.

(** Log lines written by the consumer:
    [log.Println(r.err)], [log.Printf("ERROR: %s\n", r.Status)] (identified
    by its status code) and [log.Printf(errLimError, numErr)]. *)
Inductive logline :=
| LogErr (e : string)
| LogStatus (code : Z)
| LogErrLimit (n : Z).

(** The consumer's locals ([conns], [size], [prevStatus]), the global
    [numErr], the number of [killWorkers] calls, the log, the bodies closed
    so far (in order) and the number of records received from [respChan]. *)
Record cstate := mkC {
  conns : Z;
  size : Z;
  prevStatus : Z;
  numErr : Z;
  fired : nat;
  logs : list logline;
  closedBodies : list nat;
  drained : nat
}.

Definition cinit : cstate := mkC 0 0 0 0 0 [] [] 0.

Definition set_conns (v : Z) (s : cstate) : cstate :=
  mkC v (size s) (prevStatus s) (numErr s) (fired s) (logs s) (closedBodies s) (drained s).
Definition set_size (v : Z) (s : cstate) : cstate :=
  mkC (conns s) v (prevStatus s) (numErr s) (fired s) (logs s) (closedBodies s) (drained s).
Definition set_prevStatus (v : Z) (s : cstate) : cstate :=
  mkC (conns s) (size s) v (numErr s) (fired s) (logs s) (closedBodies s) (drained s).
Definition set_numErr (v : Z) (s : cstate) : cstate :=
  mkC (conns s) (size s) (prevStatus s) v (fired s) (logs s) (closedBodies s) (drained s).
Definition incr_fired (s : cstate) : cstate :=
  mkC (conns s) (size s) (prevStatus s) (numErr s) (S (fired s)) (logs s) (closedBodies s) (drained s).
Definition add_log (l : logline) (s : cstate) : cstate :=
  mkC (conns s) (size s) (prevStatus s) (numErr s) (fired s) (logs s ++ [l]) (closedBodies s) (drained s).
Definition add_closed (b : nat) (s : cstate) : cstate :=
  mkC (conns s) (size s) (prevStatus s) (numErr s) (fired s) (logs s) (closedBodies s ++ [b]) (drained s).
Definition incr_drained (s : cstate) : cstate :=
  mkC (conns s) (size s) (prevStatus s) (numErr s) (fired s) (logs s) (closedBodies s) (S (drained s)).

(** ** checkMaxErr (tensile.go, lines 132-142)
<<
    numErr++
    if numErr >= maxErr && maxErr != -1 {
        killWorkers(quit); log.Printf(errLimError, numErr); chk = true }
>>
    The effect of [killWorkers] on the channel is the subject of the
    [Quit] module below; here a call is counted in [fired]. *)
Definition checkMaxErr (maxErr : Z) (s : cstate) : bool * cstate :=
  let s1 := set_numErr (wrap64 (numErr s + 1)) s in
  if (maxErr <=? numErr s1) && negb (maxErr =? -1)
  then (true, add_log (LogErrLimit (numErr s1)) (incr_fired s1))
  else (false, s1).

(** ** closeBody (lines 66-71): [r.Body.Close()] reads [r.Response.Body],
    which dereferences the embedded pointer: a nil [Response] panics.
    [Close] on a live body is taken to succeed. *)
Definition closeBody (r : response) (s : cstate) : option cstate :=
  match Resp r with
  | None => None
  | Some R => Some (add_closed (Body R) s)
  end.

(** Result of one iteration of the [range] loop. *)
Inductive step_result :=
| Continue (s : cstate)
| Stop (s : cstate)
| Crash (s : cstate).

Definition after_switch (r : response) (s : cstate) : step_result :=
  match closeBody r s with
  | None => Crash s
  | Some s' => Continue s'
  end.

(** ** One iteration of the consumer's loop (lines 151-174). *)
Definition consumer_step (maxErr : Z) (r : response) (s0 : cstate) : step_result :=
  let s := incr_drained s0 in
  match err r with
  | Some e =>
      (* case r.err != nil *)
      let s1 := add_log (LogErr e) s in
      let (chk, s2) := checkMaxErr maxErr s1 in
      if chk then Stop s2 else after_switch r s2
  | None =>
      match Resp r with
      | None => Crash s  (* r.StatusCode through a nil pointer *)
      | Some R =>
          if 400 <=? StatusCode R then
            (* case r.StatusCode >= 400 *)
            let s1 := if negb (StatusCode R =? prevStatus s)
                      then add_log (LogStatus (StatusCode R)) s else s in
            let s2 := set_prevStatus (StatusCode R) s1 in
            let (chk, s3) := checkMaxErr maxErr s2 in
            if chk then Stop s3 else after_switch r s3
          else
            (* default *)
            let rSize := ContentLength R in
            let s1 := if 0 <=? rSize then set_size (wrap64 (size s + rSize)) s else s in
            let s2 := set_conns (wrap64 (conns s1 + 1)) s1 in
            after_switch r s2
      end
  end.

(** How the consumer ends: by returning [(conns, size)], or by a panic. *)
Inductive outcome :=
| Returned (s : cstate)
| Panicked (s : cstate).

Definition final (o : outcome) : cstate :=
  match o with Returned s => s | Panicked s => s end.

Definition step_state (o : step_result) : cstate :=
  match o with Continue s => s | Stop s => s | Crash s => s end.

(** [for r := range respChan { ... }] over the records the channel
    delivers, in order; the loop ends when the channel is closed. *)
Fixpoint consumer_loop (maxErr : Z) (rs : list response) (s : cstate) : outcome :=
  match rs with
  | [] => Returned s
  | r :: rs' =>
      match consumer_step maxErr r s with
      | Continue s' => consumer_loop maxErr rs' s'
      | Stop s' => Returned s'
      | Crash s' => Panicked s'
      end
  end.

(** [consumer(respChan, quit)], started with the global [numErr] at 0. *)
Definition consumer (maxErr : Z) (rs : list response) : outcome :=
  consumer_loop maxErr rs cinit.

(** ** Reading the consumer's records and log

    Vocabulary of the spec over the records above: a record is a Failure
    when it carries a transport error or a status code >= 400, a Success
    when it carries no error and a status code < 400.  [http.Transport]'s
    [RoundTrip] returns a response exactly when it returns no error
    ([record_wf]). *)

Definition record_wf (r : response) : bool :=
  match err r, Resp r with
  | Some _, None => true
  | None, Some _ => true
  | _, _ => false
  end.

Definition is_failure (r : response) : bool :=
  match err r with
  | Some _ => true
  | None => match Resp r with Some R => 400 <=? StatusCode R | None => false end
  end.

Definition is_success (r : response) : bool :=
  match err r with
  | Some _ => false
  | None => match Resp r with Some R => StatusCode R <? 400 | None => false end
  end.

(** Byte size a Success contributes in the spec's accounting: its reported
    size, a negative one counting as zero. *)
Definition success_bytes (r : response) : Z :=
  if is_success r then
    match Resp r with
    | Some R => if 0 <=? ContentLength R then ContentLength R else 0
    | None => 0
    end
  else 0.

Definition count_success (rs : list response) : Z :=
  fold_right (fun r acc => (if is_success r then 1 else 0) + acc) 0 rs.

Definition sum_success_bytes (rs : list response) : Z :=
  fold_right (fun r acc => success_bytes r + acc) 0 rs.

(** The identity of a Failure: its transport error, or its status code. *)
Inductive fident :=
| FTransport (e : string)
| FStatus (c : Z).

Definition fident_eqb (a b : fident) : bool :=
  match a, b with
  | FTransport e, FTransport e' => String.eqb e e'
  | FStatus c, FStatus c' => Z.eqb c c'
  | _, _ => false
  end.

Definition fident_of (r : response) : list fident :=
  match err r with
  | Some e => [FTransport e]
  | None =>
      match Resp r with
      | Some R => if 400 <=? StatusCode R then [FStatus (StatusCode R)] else []
      | None => []
      end
  end.

Definition failures_of (rs : list response) : list fident := flat_map fident_of rs.

(** The spec's logging policy for failures: a failure is logged when it
    differs from the immediately preceding failure (the first one always). *)
Definition differs (prev : option fident) (f : fident) : bool :=
  match prev with None => true | Some p => negb (fident_eqb p f) end.

Fixpoint rolling_logs (prev : option fident) (fs : list fident) : list fident :=
  match fs with
  | [] => []
  | f :: fs' => (if differs prev f then [f] else []) ++ rolling_logs (Some f) fs'
  end.

Fixpoint last_failure (prev : option fident) (fs : list fident) : option fident :=
  match fs with
  | [] => prev
  | f :: fs' => last_failure (Some f) fs'
  end.

(** A record that is an HTTP status failure: a response with no error and a
    status code >= 400. *)
Definition is_status_failure (r : response) : bool :=
  match err r, Resp r with
  | None, Some R => 400 <=? StatusCode R
  | _, _ => false
  end.

(** What [prevStatus] holds, given the last failure drained so far: 0
    before any failure, the status code of the last failure when it was a
    status failure.  A transport error is never the last failure of an
    iteration that goes on (it either returns or panics in [closeBody]). *)
Definition prev_inv (p : Z) (last : option fident) : Prop :=
  match last with
  | None => p = 0
  | Some (FStatus c) => p = c
  | Some (FTransport _) => False
  end.

(** The per-failure lines of the consumer's log (the limit line left out). *)
Definition failure_line (l : logline) : list fident :=
  match l with
  | LogErr e => [FTransport e]
  | LogStatus c => [FStatus c]
  | LogErrLimit _ => []
  end.

Definition failure_logs (ls : list logline) : list fident := flat_map failure_line ls.

(** ** The cancellation channel and killWorkers (lines 121-130, 224)

    [quit := make(chan bool, max)] is a buffered channel.  [killWorkers]
    loops on [select { case quit <- true: default: return }] while the
    dispatcher and the workers may concurrently receive from [quit]; each of
    them returns after its first receive, so at most a finite number
    [waiters] of receives can still happen.  The channel is closed only by
    the consumer's [defer close(quit)], after the consumer returns. *)
Module Quit.

Record chan := mkChan { len : nat; cap : nat; closed : bool }.

(** [make(chan bool, n)] *)
Definition make (n : nat) : chan := mkChan 0 n false.

(** [quit := make(chan bool, max)] in [main], after [checkFlags] has
    clamped [max]. *)
Definition main_quit (max : nat) : chan := make max.

Inductive kw := KWRunning | KWReturned | KWPanicked.

Record config := mkCfg { pc : kw; ch : chan; waiters : nat }.

(** Steps of the system while [killWorkers] runs.  The first four are
    [killWorkers]' own: a send on a closed channel panics; a send proceeds
    when the buffer has room, or (unbuffered case) hands the value to a
    receiver blocked on the channel; otherwise [default] returns.  The
    last is a dispatcher or worker goroutine taking a buffered value and
    returning. *)
Inductive step : config -> config -> Prop :=
| kw_send_closed c w :
    closed c = true ->
    step (mkCfg KWRunning c w) (mkCfg KWPanicked c w)
| kw_send_buffered c w :
    closed c = false -> (len c < cap c)%nat ->
    step (mkCfg KWRunning c w) (mkCfg KWRunning (mkChan (S (len c)) (cap c) false) w)
| kw_send_handoff c w :
    closed c = false -> len c = 0%nat -> cap c = 0%nat ->
    step (mkCfg KWRunning c (S w)) (mkCfg KWRunning c w)
| kw_default c w :
    closed c = false -> (cap c <= len c)%nat ->
    step (mkCfg KWRunning c w) (mkCfg KWReturned c w)
| recv_buffered p l k b w :
    step (mkCfg p (mkChan (S l) k b) (S w)) (mkCfg p (mkChan l k b) w).

Inductive star : config -> config -> Prop :=
| star_refl x : star x x
| star_step x y z : step x y -> star y z -> star x z.

(** Calling [killWorkers(quit)] (again) in a configuration. *)
Definition invoke (x : config) : config := mkCfg KWRunning (ch x) (waiters x).

End Quit.

(** ** The dispatcher (lines 73-89)
<<
    defer close(reqChan)
    for i := 0; i < reqs; i++ {
        req, err := http.NewRequest("GET", urlStr, nil)
        if err != nil { log.Println(err) }
        select {
        case <-quit: return
        default:
            req.Header.Add("User-Agent", app+version)
            reqChan <- req
        }
    }
>> *)
Module Dispatcher.

Record Request := mkRequest { Header : list (string * string) }.

Inductive event :=
| DLog (e : string)
| DSend (r : Request)
| DClose.

(** How the dispatcher goroutine ends: it returns; it panics (the
    deferred [close(reqChan)] still runs); or it stays blocked forever on
    [reqChan <- req], and [reqChan] is never closed. *)
Inductive result :=
| DReturned (trace : list event)
| DPanicked (trace : list event)
| DBlocked (trace : list event).

Definition app_version : string := "Tensile web stress test tool v0.1".

(** [req.Header.Add(k, v)]: a nil [req] panics ([None]). *)
Definition header_add (req : option Request) (k v : string) : option Request :=
  match req with
  | None => None
  | Some q => Some (mkRequest (Header q ++ [(k, v)]))
  end.

(** [newRequest] is the pair returned by [http.NewRequest("GET", urlStr,
    nil)] (the same call in every iteration); [quitReady i] tells whether a
    value is ready on [quit] when the [select] of iteration [i] runs;
    [sendTaken i] tells whether a worker ever receives the request sent on
    the unbuffered [reqChan] at iteration [i] (if none does, the send
    blocks forever). *)
Fixpoint loop (fuel i : nat) (newRequest : option Request * option string)
    (quitReady sendTaken : nat -> bool) (tr : list event) : result :=
  match fuel with
  | O => DReturned (tr ++ [DClose])
  | S fuel' =>
      let (req, e) := newRequest in
      let tr1 := match e with Some m => tr ++ [DLog m] | None => tr end in
      if quitReady i then DReturned (tr1 ++ [DClose])
      else
        match header_add req "User-Agent" app_version with
        | None => DPanicked (tr1 ++ [DClose])
        | Some q =>
            if sendTaken i
            then loop fuel' (S i) newRequest quitReady sendTaken (tr1 ++ [DSend q])
            else DBlocked tr1
        end
  end.

Definition dispatcher (reqs : Z) (newRequest : option Request * option string)
    (quitReady sendTaken : nat -> bool) : result :=
  loop (Z.to_nat reqs) 0 newRequest quitReady sendTaken [].

End Dispatcher.

(** Room left in the buffer, twice the receivers still to come, and one
    for [killWorkers] still running: every step lowers it. *)
Definition quit_measure (x : Quit.config) : nat :=
  (Quit.cap (Quit.ch x) - Quit.len (Quit.ch x)) + 2 * Quit.waiters x +
  match Quit.pc x with Quit.KWRunning => 1 | _ => 0 end.

(** ** Flag checking (lines 178-216)

    The model is the body of [checkFlags] after [flag.Parse()] (line 179)
    has set the flag globals from the command line, for the one call that
    [main] makes, with the global [flagErr] still empty.  [url.Parse(urlStr)] is external: its result is an input,
    either a URL (of which only the scheme is read) or an error (the
    returned [*url.URL] is then nil).  [log.Fatal] ends the program with
    its message; the warnings are [fmt.Printf] lines, kept with their
    arguments. *)
Module Flags.

Definition nl : string := String (Ascii.ascii_of_nat 10) EmptyString.

Definition reqsError : string :=
  String.append "ERROR: -requests (-r) must be greater than 0" nl.
Definition maxError : string :=
  String.append "ERROR: -concurrent (-c) must be greater than 0" nl.
Definition maxErrError : string :=
  String.append "ERROR: -maxerror (-e) must be greater than 0, or -1 for unlimited" nl.
Definition urlError : string :=
  String.append "ERROR: -url (-u) cannot be blank" nl.
(** [fmt.Sprintf(schemeError, u.Scheme)] *)
Definition schemeError (scheme : string) : string :=
  String.append "ERROR: unsupported protocol scheme " (String.append scheme nl).

(** The flag globals that [checkFlags] reads and writes. *)
Record config := mkConfig {
  reqs : Z;
  max : Z;
  numCPU : Z;
  maxErr : Z;
  urlStr : string
}.

Inductive parsed :=
| URLOk (scheme : string)
| URLErr (msg : string).

Inductive warning :=
| CpuWarn (numCPU maxCPU : Z)
| CpuLTE0Warn (numCPU : Z)
| MaxGTReqsWarn (max reqs : Z).

(** [Fatal] is [log.Fatal]'s message; [Panic] carries [flagErr] at the
    nil dereference [u.Scheme]. *)
Inductive result :=
| Fatal (msg : string)
| Panic (flagErr : string)
| Ok (c : config) (warnings : list warning).

Definition checkFlags (maxCPU : Z) (c : config) (u : parsed) : result :=
  let e1 := if reqs c <=? 0 then reqsError else EmptyString in
  let e2 := String.append e1 (if max c <=? 0 then maxError else EmptyString) in
  let e3 := String.append e2
              (if (maxErr c =? 0) || (maxErr c <? -1) then maxErrError else EmptyString) in
  let e4 := String.append e3
              (if String.eqb (urlStr c) EmptyString then urlError else EmptyString) in
  match u with
  | URLErr m => Panic (String.append e4 m)
  | URLOk scheme =>
      let e5 := String.append e4
                  (if negb (String.eqb scheme "http") && negb (String.eqb scheme "https")
                   then schemeError scheme else EmptyString) in
      if negb (String.eqb e5 EmptyString) then Fatal (String.append nl e5)
      else
        let '(n1, w1) := if maxCPU <? numCPU c
                         then (maxCPU, [CpuWarn (numCPU c) maxCPU]) else (numCPU c, []) in
        let '(n2, w2) := if n1 <? 1 then (1, w1 ++ [CpuLTE0Warn n1]) else (n1, w1) in
        let '(m, w3) := if reqs c <? max c
                        then (reqs c, w2 ++ [MaxGTReqsWarn (max c) (reqs c)])
                        else (max c, w2) in
        Ok (mkConfig (reqs c) m n2 (maxErr c) (urlStr c)) w3
  end.

End Flags.

(** [http.NewRequest("GET", urlStr, nil)] in the dispatcher.  With the
    method ["GET"] and the background context, [NewRequestWithContext]
    fails only where [url.Parse(urlStr)] fails, returning that error and a
    nil request; otherwise the request has an empty [Header].  [main] runs
    [checkFlags] before the dispatcher, and both parse the same [urlStr],
    so both see the same parse result [u]. *)
Definition newRequest (u : Flags.parsed) : option Dispatcher.Request * option string :=
  match u with
  | Flags.URLOk _ => (Some (Dispatcher.mkRequest []), None)
  | Flags.URLErr m => (None, Some m)
  end.



(** Number of failures among records. *)
Definition count_failures (rs : list response) : Z :=
  fold_right (fun r acc => (if is_failure r then 1 else 0) + acc) 0 rs.

(** Invariant of [killWorkers] running with no receiver on a quit channel
    of capacity [k]. *)
Definition kw_alone_inv (k : nat) (y : Quit.config) : Prop :=
  Quit.waiters y = 0%nat /\ Quit.closed (Quit.ch y) = false /\ Quit.cap (Quit.ch y) = k /\
  (Quit.len (Quit.ch y) <= k)%nat /\ Quit.pc y <> Quit.KWPanicked /\
  (Quit.pc y = Quit.KWReturned -> Quit.len (Quit.ch y) = k).

(** * Properties *)

(** ** Arithmetic of [wrap64] *)

Lemma wrap64_add_wrap (a b : Z) : wrap64 (wrap64 a + b) = wrap64 (a + b).
Proof.
  unfold wrap64.
  replace ((a + 2 ^ 63) mod 2 ^ 64 - 2 ^ 63 + b + 2 ^ 63)
    with ((a + 2 ^ 63) mod 2 ^ 64 + b) by ring.
  rewrite Zplus_mod_idemp_l.
  f_equal; f_equal; ring.
Qed.

Lemma wrap64_id (z : Z) : in_int64 z -> wrap64 z = z.
Proof.
  unfold in_int64, wrap64; intros H.
  rewrite Z.mod_small by lia. ring.
Qed.

(** ** Unfolding one iteration of the consumer *)

Ltac split_ifs :=
  repeat match goal with
  | |- context [if ?c then _ else _] =>
      let E := fresh "E" in destruct c eqn:E
  end.

Ltac unfold_step :=
  unfold consumer_step, checkMaxErr, after_switch, closeBody in *; simpl in *.

Lemma drained_step (maxErr : Z) (r : response) (s : cstate) :
  drained (step_state (consumer_step maxErr r s)) = S (drained s).
Proof.
  destruct r as [[R|] [e|]]; unfold_step; split_ifs; reflexivity.
Qed.

Lemma loop_drained_mono (maxErr : Z) (rs : list response) (s : cstate) :
  (drained s <= drained (final (consumer_loop maxErr rs s)))%nat.
Proof.
  revert s; induction rs as [|r rs IH]; intros s; simpl; [lia|].
  pose proof (drained_step maxErr r s) as Hd.
  destruct (consumer_step maxErr r s) as [s'|s'|s']; simpl in *;
    [specialize (IH s') |..]; lia.
Qed.

(** An invariant [P] of the loop, relating the consumer state to the prefix
    of records drained so far, that holds after every iteration that goes
    on, and whose weaker form [Pend] holds after every iteration. *)
Section LoopInvariant.

Variable maxErr : Z.
Variables P Pend : cstate -> list response -> Prop.
Variable Q : response -> Prop.

Hypothesis P_end : forall s pre, P s pre -> Pend s pre.
Hypothesis P_step : forall s pre r, Q r -> P s pre ->
  Pend (step_state (consumer_step maxErr r s)) (pre ++ [r]) /\
  (forall s', consumer_step maxErr r s = Continue s' -> P s' (pre ++ [r])).

Lemma loop_invariant (rs : list response) (s : cstate) (pre : list response) :
  Forall Q rs -> P s pre ->
  Pend (final (consumer_loop maxErr rs s))
       (pre ++ firstn (drained (final (consumer_loop maxErr rs s)) - drained s) rs).
Proof.
  revert s pre; induction rs as [|r rs IH]; intros s pre HQ HP; simpl.
  - rewrite Nat.sub_diag, app_nil_r; auto.
  - inversion HQ as [|? ? Hr HQ']; subst.
    pose proof (drained_step maxErr r s) as Hd.
    destruct (P_step s pre r Hr HP) as [Hend Hcont].
    destruct (consumer_step maxErr r s) as [s'|s'|s'] eqn:E; simpl in *.
    + pose proof (loop_drained_mono maxErr rs s') as Hm.
      specialize (IH s' (pre ++ [r]) HQ' (Hcont s' eq_refl)).
      replace (drained (final (consumer_loop maxErr rs s')) - drained s)%nat
        with (S (drained (final (consumer_loop maxErr rs s')) - drained s'))
        by lia.
      simpl. rewrite <- app_assoc in IH. exact IH.
    + rewrite Hd. replace (S (drained s) - drained s)%nat with 1%nat by lia.
      exact Hend.
    + rewrite Hd. replace (S (drained s) - drained s)%nat with 1%nat by lia.
      exact Hend.
Qed.

Lemma consumer_invariant (rs : list response) :
  Forall Q rs -> P cinit [] ->
  Pend (final (consumer maxErr rs))
       (firstn (drained (final (consumer maxErr rs))) rs).
Proof.
  intros HQ H. pose proof (loop_invariant rs cinit [] HQ H) as L.
  unfold consumer. simpl in L. rewrite Nat.sub_0_r in L. exact L.
Qed.

End LoopInvariant.

Lemma Forall_True {A : Type} (l : list A) : Forall (fun _ => True) l.
Proof. induction l; constructor; auto. Qed.

Lemma count_success_app1 (pre : list response) (r : response) :
  count_success (pre ++ [r]) = count_success pre + (if is_success r then 1 else 0).
Proof.
  induction pre as [|x pre IH]; simpl.
  - destruct (is_success r); reflexivity.
  - rewrite IH. ring.
Qed.

Lemma sum_success_bytes_app1 (pre : list response) (r : response) :
  sum_success_bytes (pre ++ [r]) = sum_success_bytes pre + success_bytes r.
Proof.
  induction pre as [|x pre IH]; simpl.
  - ring.
  - rewrite IH. ring.
Qed.

Lemma count_success_bounds (rs : list response) :
  0 <= count_success rs <= Z.of_nat (List.length rs).
Proof.
  induction rs as [|r rs IH]; simpl; [lia|].
  destruct (is_success r); lia.
Qed.

(** A Success whose reported size is negative: one more completed request,
    and the byte total untouched. *)
Lemma negative_size_step (maxErr : Z) (R : Response) (s : cstate) :
  StatusCode R < 400 -> ContentLength R < 0 ->
  exists s', consumer_step maxErr (mkresponse (Some R) None) s = Continue s' /\
    conns s' = wrap64 (conns s + 1) /\ size s' = size s /\ numErr s' = numErr s.
Proof.
  intros Hc Hl. unfold_step.
  replace (400 <=? StatusCode R) with false by (symmetry; apply Z.leb_gt; lia).
  replace (0 <=? ContentLength R) with false by (symmetry; apply Z.leb_gt; lia).
  eexists; repeat split; reflexivity.
Qed.

Lemma conns_counts_successes (maxErr : Z) (rs : list response) :
  conns (final (consumer maxErr rs))
  = wrap64 (count_success (firstn (drained (final (consumer maxErr rs))) rs)).
Proof.
  apply (consumer_invariant maxErr
           (fun s pre => conns s = wrap64 (count_success pre))
           (fun s pre => conns s = wrap64 (count_success pre))
           (fun _ => True)); auto using Forall_True.
  intros s pre r _ H.
  assert (Hs : conns (step_state (consumer_step maxErr r s))
               = wrap64 (count_success (pre ++ [r]))).
  { rewrite count_success_app1.
    destruct r as [[R|] [e|]]; unfold is_success; unfold_step; split_ifs;
      simpl; rewrite ?H, ?wrap64_add_wrap, ?Z.add_0_r; try reflexivity;
      lia. }
  split; [exact Hs|].
  intros s' E. rewrite E in Hs. exact Hs.
Qed.

Lemma size_sums_success_bytes (maxErr : Z) (rs : list response) :
  size (final (consumer maxErr rs))
  = wrap64 (sum_success_bytes (firstn (drained (final (consumer maxErr rs))) rs)).
Proof.
  apply (consumer_invariant maxErr
           (fun s pre => size s = wrap64 (sum_success_bytes pre))
           (fun s pre => size s = wrap64 (sum_success_bytes pre))
           (fun _ => True)); auto using Forall_True.
  intros s pre r _ H.
  assert (Hs : size (step_state (consumer_step maxErr r s))
               = wrap64 (sum_success_bytes (pre ++ [r]))).
  { rewrite sum_success_bytes_app1.
    destruct r as [[R|] [e|]]; unfold success_bytes, is_success; unfold_step;
      split_ifs; simpl; rewrite ?H, ?wrap64_add_wrap, ?Z.add_0_r;
      try reflexivity; lia. }
  split; [exact Hs|].
  intros s' E. rewrite E in Hs. exact Hs.
Qed.

(** ** C2: classification of records and what each class updates *)

(** C2.  Every well-formed record (a transport error without a response, or
    a response without an error) is classified by the consumer as a Failure
    exactly when it carries a transport error or a status code >= 400, and
    as a Success otherwise (any status code < 400).  A Failure increments
    only the error counter and leaves [conns] and [size] alone; a Success
    increments [conns], leaves the error counter alone and adds its byte
    size to [size] (a negative reported size adding nothing, see C4).  This
    holds whatever the iteration does afterwards (go on, return at the
    threshold, or panic). *)
Theorem consumer_step_classification (maxErr : Z) (r : response) (s : cstate) :
  record_wf r = true ->
  let s' := step_state (consumer_step maxErr r s) in
  (is_failure r = true /\ is_success r = false /\
     numErr s' = wrap64 (numErr s + 1) /\ conns s' = conns s /\ size s' = size s)
  \/
  (is_failure r = false /\ is_success r = true /\
     numErr s' = numErr s /\ conns s' = wrap64 (conns s + 1) /\
     exists R, Resp r = Some R /\ StatusCode R < 400 /\
       size s' = if 0 <=? ContentLength R
                 then wrap64 (size s + ContentLength R) else size s).
Proof.
  intros Hwf.
  destruct r as [[R|] [e|]]; simpl in Hwf; try discriminate;
    unfold is_failure, is_success; unfold_step.
  - destruct (400 <=? StatusCode R) eqn:E.
    + left. rewrite (proj2 (Z.ltb_ge _ _)) by (apply Z.leb_le in E; lia).
      split_ifs; simpl; repeat split; reflexivity.
    + right. rewrite (proj2 (Z.ltb_lt _ _)) by (apply Z.leb_gt in E; lia).
      apply Z.leb_gt in E.
      repeat split; split_ifs; simpl; try reflexivity.
      * exists R; repeat split; auto. rewrite E0. reflexivity.
      * exists R; repeat split; auto. rewrite E0. reflexivity.
  - left. split_ifs; simpl; repeat split; reflexivity.
Qed.

Lemma consumer_step_classification_witness :
  record_wf (mkresponse (Some (mkResponse 404 12 3)) None) = true /\
  ((is_failure (mkresponse (Some (mkResponse 404 12 3)) None) = true /\
    is_success (mkresponse (Some (mkResponse 404 12 3)) None) = false /\
    numErr (step_state (consumer_step 5 (mkresponse (Some (mkResponse 404 12 3)) None) cinit))
      = wrap64 (numErr cinit + 1) /\
    conns (step_state (consumer_step 5 (mkresponse (Some (mkResponse 404 12 3)) None) cinit))
      = conns cinit /\
    size (step_state (consumer_step 5 (mkresponse (Some (mkResponse 404 12 3)) None) cinit))
      = size cinit)
   \/
   (is_failure (mkresponse (Some (mkResponse 404 12 3)) None) = false /\
    is_success (mkresponse (Some (mkResponse 404 12 3)) None) = true /\
    numErr (step_state (consumer_step 5 (mkresponse (Some (mkResponse 404 12 3)) None) cinit))
      = numErr cinit /\
    conns (step_state (consumer_step 5 (mkresponse (Some (mkResponse 404 12 3)) None) cinit))
      = wrap64 (conns cinit + 1) /\
    exists R, Resp (mkresponse (Some (mkResponse 404 12 3)) None) = Some R /\
      StatusCode R < 400 /\
      size (step_state (consumer_step 5 (mkresponse (Some (mkResponse 404 12 3)) None) cinit))
        = if 0 <=? ContentLength R
          then wrap64 (size cinit + ContentLength R) else size cinit)).
Proof.
  split; [reflexivity|].
  apply (consumer_step_classification 5 (mkresponse (Some (mkResponse 404 12 3)) None) cinit).
  reflexivity.
Defined.

(** ** C4: byte accounting *)

(** C4 (counterexample).  [size] is an [int64] and [size += rSize] wraps
    around: two Successes each reporting [2^62] bytes take the total from
    [2^62] down to [-2^63], while the sum of the sizes is [2^63]. *)
Lemma total_bytes_overflow :
  size (final (consumer (-1) [mkresponse (Some (mkResponse 200 (2 ^ 62) 1)) None]))
    = 2 ^ 62 /\
  size (final (consumer (-1) [mkresponse (Some (mkResponse 200 (2 ^ 62) 1)) None;
                              mkresponse (Some (mkResponse 200 (2 ^ 62) 2)) None]))
    = - 2 ^ 63 /\
  sum_success_bytes [mkresponse (Some (mkResponse 200 (2 ^ 62) 1)) None;
                     mkresponse (Some (mkResponse 200 (2 ^ 62) 2)) None]
    = 2 ^ 63.
Proof. vm_compute. repeat split; reflexivity. Qed.

(** C4 (amended).  The byte total returned by the consumer is the [int64]
    wrap-around of the sum, over the Success records drained, of their
    reported sizes, a negative size counting as zero; that sum never
    decreases from one record to the next, so the total equals it and never
    decreases as long as it stays below [2^63]. *)
Theorem total_bytes_wrapped_sum (maxErr : Z) (rs : list response) :
  size (final (consumer maxErr rs))
    = wrap64 (sum_success_bytes (firstn (drained (final (consumer maxErr rs))) rs)) /\
  (forall k : nat,
     0 <= sum_success_bytes (firstn k rs) <= sum_success_bytes (firstn (S k) rs)).
Proof.
  split; [apply size_sums_success_bytes|].
  assert (Hnn : forall r, 0 <= success_bytes r).
  { intros r; unfold success_bytes.
    destruct (is_success r); [|lia].
    destruct (Resp r) as [R|]; [|lia].
    destruct (0 <=? ContentLength R) eqn:E; [apply Z.leb_le in E|]; lia. }
  induction rs as [|r rs IH]; intros k.
  - destruct k; simpl; lia.
  - specialize (Hnn r). destruct k as [|k]; simpl.
    + lia.
    + specialize (IH k). simpl in IH. lia.
Qed.

(** ** C10: completion counting is independent of the reported size *)

(** C10.  A Success whose reported size is negative still increments
    [conns] by one (and leaves [size] alone); over a run, [conns] is the
    number of Success records drained.  The records drained are at most the
    [reqs] requests issued, an [int], hence fewer than [2^63]. *)
Theorem negative_size_success_counted (maxErr : Z) (rs : list response) :
  Z.of_nat (List.length rs) < 2 ^ 63 ->
  conns (final (consumer maxErr rs))
    = count_success (firstn (drained (final (consumer maxErr rs))) rs) /\
  (forall (R : Response) (s : cstate),
     StatusCode R < 400 -> ContentLength R < 0 ->
     exists s', consumer_step maxErr (mkresponse (Some R) None) s = Continue s' /\
       conns s' = wrap64 (conns s + 1) /\ size s' = size s).
Proof.
  intros Hlen. split.
  - rewrite conns_counts_successes. apply wrap64_id.
    pose proof (count_success_bounds
                  (firstn (drained (final (consumer maxErr rs))) rs)) as B.
    pose proof (length_firstn (drained (final (consumer maxErr rs))) rs) as L.
    unfold in_int64. lia.
  - intros R s Hc Hl.
    destruct (negative_size_step maxErr R s Hc Hl) as (s' & E & H1 & H2 & _).
    exists s'; auto.
Qed.

Lemma negative_size_success_counted_witness :
  Z.of_nat (List.length [mkresponse (Some (mkResponse 200 (-1) 1)) None;
                         mkresponse (Some (mkResponse 200 15 2)) None]) < 2 ^ 63 /\
  conns (final (consumer (-1) [mkresponse (Some (mkResponse 200 (-1) 1)) None;
                               mkresponse (Some (mkResponse 200 15 2)) None]))
    = count_success (firstn (drained (final (consumer (-1)
        [mkresponse (Some (mkResponse 200 (-1) 1)) None;
         mkresponse (Some (mkResponse 200 15 2)) None])))
        [mkresponse (Some (mkResponse 200 (-1) 1)) None;
         mkresponse (Some (mkResponse 200 15 2)) None]) /\
  (forall (R : Response) (s : cstate),
     StatusCode R < 400 -> ContentLength R < 0 ->
     exists s', consumer_step (-1) (mkresponse (Some R) None) s = Continue s' /\
       conns s' = wrap64 (conns s + 1) /\ size s' = size s).
Proof.
  split; [simpl; lia|].
  apply negative_size_success_counted. simpl; lia.
Defined.

(** ** C7: rolling de-duplication of failure log lines *)

Lemma rolling_logs_app (p : option fident) (fs gs : list fident) :
  rolling_logs p (fs ++ gs) = rolling_logs p fs ++ rolling_logs (last_failure p fs) gs.
Proof.
  revert p; induction fs as [|f fs IH]; intros p; simpl; [reflexivity|].
  rewrite IH, app_assoc. reflexivity.
Qed.

Lemma last_failure_app (p : option fident) (fs gs : list fident) :
  last_failure p (fs ++ gs) = last_failure (last_failure p fs) gs.
Proof.
  revert p; induction fs as [|f fs IH]; intros p; simpl; auto.
Qed.

Lemma failure_log_step (maxErr : Z) (s : cstate) (pre : list response) (r : response) :
  record_wf r = true ->
  failure_logs (logs s) = rolling_logs None (failures_of pre) ->
  prev_inv (prevStatus s) (last_failure None (failures_of pre)) ->
  failure_logs (logs (step_state (consumer_step maxErr r s)))
    = rolling_logs None (failures_of (pre ++ [r])) /\
  (forall s', consumer_step maxErr r s = Continue s' ->
     prev_inv (prevStatus s') (last_failure None (failures_of (pre ++ [r])))).
Proof.
  intros Hwf H1 H2.
  unfold failures_of in *. rewrite flat_map_app, rolling_logs_app, last_failure_app.
  rewrite <- H1. simpl. rewrite app_nil_r.
  destruct (last_failure None (flat_map fident_of pre)) as [[e0|p]|] eqn:EL;
    simpl in H2; try contradiction;
  (destruct r as [[R|] [e|]]; simpl in Hwf; try discriminate);
  unfold fident_of, failure_logs; unfold_step.
  all: split_ifs; simpl; rewrite ?flat_map_app; simpl; rewrite ?app_nil_r.
  all: rewrite ?H2 in *.
  all: try (rewrite Z.eqb_sym in E1; rewrite E1).
  all: try (simpl; split; [rewrite ?app_nil_r; reflexivity
                          | intros s' Hs'; try discriminate; injection Hs' as <-;
                            simpl; rewrite ?H2; reflexivity]).
  all: exfalso; apply negb_false_iff, Z.eqb_eq in E1; apply Z.leb_le in E; lia.
Qed.

(** C7.  Over every run whose records are well formed (a transport error
    comes without a response), the per-failure lines of the consumer's log
    are exactly the failures drained, each kept when it differs from the
    immediately preceding failure: a rolling comparison with the previous
    failure (status code for status failures, error for transport errors),
    so consecutive identical failures give one line and alternating
    distinct failures give one line each.  (The status comparison uses
    [prevStatus], which only status failures update; a transport error that
    does not end the run panics in [closeBody], see C5, so no failure ever
    follows one.) *)
Theorem failure_log_rolling_dedup (maxErr : Z) (rs : list response) :
  Forall (fun r => record_wf r = true) rs ->
  failure_logs (logs (final (consumer maxErr rs)))
    = rolling_logs None (failures_of (firstn (drained (final (consumer maxErr rs))) rs)).
Proof.
  intros Hwf.
  apply (consumer_invariant maxErr
           (fun s pre => failure_logs (logs s) = rolling_logs None (failures_of pre) /\
                         prev_inv (prevStatus s) (last_failure None (failures_of pre)))
           (fun s pre => failure_logs (logs s) = rolling_logs None (failures_of pre))
           (fun r => record_wf r = true)); auto.
  - intros s pre H; apply H.
  - intros s pre r Hr [H1 H2].
    destruct (failure_log_step maxErr s pre r Hr H1 H2) as [A B].
    split; [exact A|].
    intros s' E. split; [|exact (B s' E)].
    rewrite E in A. exact A.
  - simpl. split; reflexivity.
Qed.

Lemma failure_log_rolling_dedup_witness :
  Forall (fun r => record_wf r = true)
    [mkresponse (Some (mkResponse 500 0 1)) None; mkresponse (Some (mkResponse 500 0 2)) None;
     mkresponse (Some (mkResponse 503 0 3)) None; mkresponse (Some (mkResponse 500 0 4)) None] /\
  failure_logs (logs (final (consumer (-1)
    [mkresponse (Some (mkResponse 500 0 1)) None; mkresponse (Some (mkResponse 500 0 2)) None;
     mkresponse (Some (mkResponse 503 0 3)) None; mkresponse (Some (mkResponse 500 0 4)) None])))
  = rolling_logs None (failures_of (firstn (drained (final (consumer (-1)
    [mkresponse (Some (mkResponse 500 0 1)) None; mkresponse (Some (mkResponse 500 0 2)) None;
     mkresponse (Some (mkResponse 503 0 3)) None; mkresponse (Some (mkResponse 500 0 4)) None])))
    [mkresponse (Some (mkResponse 500 0 1)) None; mkresponse (Some (mkResponse 500 0 2)) None;
     mkresponse (Some (mkResponse 503 0 3)) None; mkresponse (Some (mkResponse 500 0 4)) None])).
Proof.
  assert (H : Forall (fun r => record_wf r = true)
    [mkresponse (Some (mkResponse 500 0 1)) None; mkresponse (Some (mkResponse 500 0 2)) None;
     mkresponse (Some (mkResponse 503 0 3)) None; mkresponse (Some (mkResponse 500 0 4)) None])
    by (repeat constructor).
  split; [exact H|].
  apply failure_log_rolling_dedup. exact H.
Defined.

(** ** C1: a run in which every request fails *)

Lemma status_failures_loop (K : Z) (rs : list response) (s : cstate) :
  1 <= K < 2 ^ 63 ->
  Forall (fun r => is_status_failure r = true) rs ->
  0 <= numErr s < K -> conns s = 0 -> size s = 0 -> fired s = 0%nat ->
  exists s', consumer_loop K rs s = Returned s' /\
    numErr s' = Z.min K (numErr s + Z.of_nat (List.length rs)) /\
    conns s' = 0 /\ size s' = 0 /\
    fired s' = (if K <=? numErr s + Z.of_nat (List.length rs) then 1%nat else 0%nat) /\
    Z.of_nat (drained s')
      = Z.of_nat (drained s) + Z.min K (numErr s + Z.of_nat (List.length rs)) - numErr s.
Proof.
  intros HK; revert s; induction rs as [|r rs IH]; intros s HF Hn Hc Hs Hf.
  - exists s; simpl. rewrite Z.add_0_r, Z.min_r by lia.
    replace (K <=? numErr s) with false by (symmetry; apply Z.leb_gt; lia).
    repeat split; auto; lia.
  - inversion HF as [|? ? Hr HF']; subst.
    destruct r as [[R|] [e|]]; simpl in Hr; try discriminate.
    apply Z.leb_le in Hr.
    change (List.length (mkresponse (Some R) None :: rs)) with (S (List.length rs)).
    rewrite Nat2Z.inj_succ.
    assert (HL0 : 0 <= Z.of_nat (List.length rs)) by lia.
    remember (Z.of_nat (List.length rs)) as L eqn:HL.
    simpl consumer_loop. unfold_step.
    replace (400 <=? StatusCode R) with true by (symmetry; apply Z.leb_le; lia).
    destruct (negb (StatusCode R =? prevStatus s)); simpl;
      rewrite wrap64_id by (unfold in_int64; lia);
      replace (K =? -1) with false by (symmetry; apply Z.eqb_neq; lia);
      rewrite andb_true_r;
      destruct (K <=? numErr s + 1) eqn:EK; [apply Z.leb_le in EK | apply Z.leb_gt in EK | apply Z.leb_le in EK | apply Z.leb_gt in EK].
    all: try (eexists; split; [reflexivity|]; simpl;
         replace (K <=? numErr s + Z.succ L) with true
           by (symmetry; apply Z.leb_le; lia);
         rewrite Hf; repeat split; auto; lia).
    all: match goal with
         | |- exists s', consumer_loop _ _ ?st = Returned s' /\ _ =>
             destruct (IH st HF') as (s' & E' & A1 & A2 & A3 & A4 & A5); simpl; auto; try lia
         end;
         exists s'; split; [exact E'|];
         cbn [drained numErr add_closed set_numErr set_prevStatus add_log incr_drained] in A1, A4, A5;
         rewrite Nat2Z.inj_succ in A5;
         rewrite A1, A4;
         replace (numErr s + 1 + L) with (numErr s + Z.succ L) in * by lia;
         repeat split; auto; lia.
Qed.

(** C1 (counterexample).  With threshold [K = 2] and a single request,
    which fails with status 500, the run ends with one error and the
    cancellation never fired: the stream ends before the threshold. *)
Lemma threshold_above_request_count :
  consumer 2 [mkresponse (Some (mkResponse 500 0 1)) None]
    = Returned (final (consumer 2 [mkresponse (Some (mkResponse 500 0 1)) None])) /\
  numErr (final (consumer 2 [mkresponse (Some (mkResponse 500 0 1)) None])) = 1 /\
  fired (final (consumer 2 [mkresponse (Some (mkResponse 500 0 1)) None])) = 0%nat.
Proof. vm_compute. repeat split; reflexivity. Qed.

(** C1 (amended).  With an error threshold [1 <= K < 2^63] and [N] records
    that are all HTTP status failures, the consumer returns normally with
    [conns = 0] and [size = 0] after incrementing the error counter once per
    failure: when [K <= N] it fires the cancellation once and returns as
    soon as the counter reaches [K], having drained [K] records
    ([numErr = K]); when [N < K] the stream ends first, with [numErr = N] and
    no cancellation. *)
Theorem all_status_failures_threshold (K : Z) (rs : list response) :
  1 <= K < 2 ^ 63 ->
  Forall (fun r => is_status_failure r = true) rs ->
  exists s, consumer K rs = Returned s /\
    numErr s = Z.min K (Z.of_nat (List.length rs)) /\
    conns s = 0 /\ size s = 0 /\
    fired s = (if K <=? Z.of_nat (List.length rs) then 1%nat else 0%nat) /\
    Z.of_nat (drained s) = Z.min K (Z.of_nat (List.length rs)).
Proof.
  intros HK HF.
  destruct (status_failures_loop K rs cinit HK HF) as (s & E & A1 & A2 & A3 & A4 & A5);
    simpl; try lia; auto.
  exists s. simpl in A1, A4, A5. unfold consumer. rewrite E.
  repeat split; auto; lia.
Qed.

Lemma all_status_failures_threshold_witness :
  exists s, consumer 3 (repeat (mkresponse (Some (mkResponse 500 0 1)) None) 5) = Returned s /\
    numErr s = Z.min 3 (Z.of_nat (List.length (repeat (mkresponse (Some (mkResponse 500 0 1)) None) 5))) /\
    conns s = 0 /\ size s = 0 /\
    fired s = (if 3 <=? Z.of_nat (List.length (repeat (mkresponse (Some (mkResponse 500 0 1)) None) 5))
               then 1%nat else 0%nat) /\
    Z.of_nat (drained s)
      = Z.min 3 (Z.of_nat (List.length (repeat (mkresponse (Some (mkResponse 500 0 1)) None) 5))).
Proof.
  apply all_status_failures_threshold.
  - lia.
  - repeat constructor.
Defined.

(** ** C3, C5, C6: transport errors and the early return *)

Lemma unlimited_never_fires (rs : list response) (s : cstate) :
  fired (final (consumer_loop (-1) rs s)) = fired s.
Proof.
  revert s; induction rs as [|r rs IH]; intros s; simpl; [reflexivity|].
  assert (H : fired (step_state (consumer_step (-1) r s)) = fired s /\
              forall s', consumer_step (-1) r s = Continue s' -> fired s' = fired s).
  { destruct r as [[R|] [e|]]; unfold_step; split_ifs; simpl;
      rewrite ?andb_false_r in *; try discriminate;
      split; try reflexivity; intros s' Hs'; try discriminate;
      injection Hs' as <-; reflexivity. }
  destruct H as [H1 H2].
  destruct (consumer_step (-1) r s) eqn:E; simpl in *; auto.
  rewrite IH. apply H2. reflexivity.
Qed.

(** C3 (code bug).  With the unlimited threshold the consumer never calls
    [killWorkers]; but a transport error (a record with no response) makes
    [closeBody] dereference a nil [*http.Response]: of three records, the
    consumer handles the first and panics, so the stream is not drained to
    its end.  Same defect as C5. *)
Theorem unlimited_transport_error_panics :
  (forall rs, fired (final (consumer (-1) rs)) = 0%nat) /\
  exists s,
    consumer (-1) [mkresponse None (Some "dial tcp 127.0.0.1:80: connect: connection refused"%string);
                   mkresponse (Some (mkResponse 200 15 1)) None;
                   mkresponse (Some (mkResponse 200 15 2)) None] = Panicked s /\
    drained s = 1%nat /\ numErr s = 1 /\ fired s = 0%nat.
Proof.
  split.
  - intros rs. apply unlimited_never_fires.
  - eexists. split; [reflexivity|]. repeat split; reflexivity.
Qed.

(** C5 (code bug).  A transport error below the threshold ([maxErr = 2]):
    the error is logged and counted, then [r.closeBody()] dereferences the
    nil [*http.Response] and the consumer panics. *)
Theorem transport_error_closeBody_panics :
  exists s,
    consumer 2 [mkresponse None (Some "dial tcp 127.0.0.1:80: connect: connection refused"%string);
                mkresponse (Some (mkResponse 200 15 1)) None] = Panicked s /\
    numErr s = 1 /\ logs s = [LogErr "dial tcp 127.0.0.1:80: connect: connection refused"%string].
Proof. eexists. split; [reflexivity|]. split; reflexivity. Qed.

(** C6 (code bug).  When a status failure reaches the threshold
    ([maxErr = 1]), [return conns, size] skips [r.closeBody()]: the body of
    that response is never closed, whereas the same record below the
    threshold ([maxErr = 2]) has its body closed. *)
Theorem threshold_return_skips_closeBody :
  (exists s, consumer 1 [mkresponse (Some (mkResponse 500 0 7)) None] = Returned s /\
             closedBodies s = [] /\ fired s = 1%nat) /\
  (exists s, consumer 2 [mkresponse (Some (mkResponse 500 0 7)) None] = Returned s /\
             closedBodies s = [7%nat]).
Proof.
  split; eexists; (split; [reflexivity|]); repeat split; reflexivity.
Qed.

(** ** C8: a descriptor whose construction fails *)

(** The request the dispatcher sends once [User-Agent] is added. *)
Lemma dispatcher_loop_prefix (q : Dispatcher.Request) (quitReady sendTaken : nat -> bool) :
  forall (fuel i : nat) (tr : list Dispatcher.event),
  exists k, (k <= fuel)%nat /\
    (forall j, (j < k)%nat -> quitReady (i + j)%nat = false /\ sendTaken (i + j)%nat = true) /\
    ((Dispatcher.loop fuel i (Some q, None) quitReady sendTaken tr
        = Dispatcher.DReturned
            (tr ++ repeat (Dispatcher.DSend
                             (Dispatcher.mkRequest (Dispatcher.Header q ++
                                [("User-Agent"%string, Dispatcher.app_version)]))) k
                ++ [Dispatcher.DClose]) /\
      ((k < fuel)%nat -> quitReady (i + k)%nat = true))
     \/
     ((k < fuel)%nat /\ quitReady (i + k)%nat = false /\ sendTaken (i + k)%nat = false /\
      Dispatcher.loop fuel i (Some q, None) quitReady sendTaken tr
        = Dispatcher.DBlocked
            (tr ++ repeat (Dispatcher.DSend
                             (Dispatcher.mkRequest (Dispatcher.Header q ++
                                [("User-Agent"%string, Dispatcher.app_version)]))) k))).
Proof.
  induction fuel as [|fuel IH]; intros i tr; simpl.
  - exists 0%nat; split; [lia|]. split; [intros; lia|].
    left; split; [reflexivity | intros; lia].
  - destruct (quitReady i) eqn:Q.
    + exists 0%nat; split; [lia|]. split; [intros; lia|].
      left; split; [reflexivity|]. intros _. rewrite Nat.add_0_r; exact Q.
    + destruct (sendTaken i) eqn:T.
      * destruct (IH (S i) (tr ++ [Dispatcher.DSend
            (Dispatcher.mkRequest (Dispatcher.Header q ++
               [("User-Agent"%string, Dispatcher.app_version)]))]))
          as (k & Hk & A & B).
        exists (S k); split; [lia|]. split.
        -- intros j Hj. destruct j as [|j]; [rewrite Nat.add_0_r; auto|].
           replace (i + S j)%nat with (S i + j)%nat by lia. apply A. lia.
        -- replace (i + S k)%nat with (S i + k)%nat by lia.
           destruct B as [(E & B)|(Hl & B1 & B2 & E)].
           ++ left. rewrite E, <- app_assoc. split; [reflexivity|].
              intros Hlt. apply B. lia.
           ++ right. rewrite E, <- app_assoc. repeat split; auto. lia.
      * exists 0%nat; split; [lia|]. split; [intros; lia|].
        right. rewrite Nat.add_0_r, app_nil_r. repeat split; auto. lia.
Qed.




(** ** C9: killWorkers never blocks, terminates, and can be called again *)

Lemma quit_step_decreases (x y : Quit.config) :
  Quit.step x y -> (quit_measure y < quit_measure x)%nat.
Proof.
  intros H; destruct H; unfold quit_measure; simpl;
    try (destruct p); lia.
Qed.

Lemma quit_step_acc (x : Quit.config) : Acc (fun b a => Quit.step a b) x.
Proof.
  remember (quit_measure x) as n eqn:Hn.
  revert x Hn; induction n as [n IH] using (well_founded_induction lt_wf).
  intros x Hn; constructor; intros y Hy.
  apply (IH (quit_measure y)); [|reflexivity].
  subst n; apply quit_step_decreases; exact Hy.
Qed.

Lemma quit_step_keeps_open (x y : Quit.config) :
  Quit.step x y -> Quit.closed (Quit.ch x) = false -> Quit.pc x <> Quit.KWPanicked ->
  Quit.closed (Quit.ch y) = false /\ Quit.pc y <> Quit.KWPanicked.
Proof.
  intros H Hc Hp; destruct H; simpl in *; try congruence; split; auto; discriminate.
Qed.

Lemma quit_star_keeps_open (x y : Quit.config) :
  Quit.star x y -> Quit.closed (Quit.ch x) = false -> Quit.pc x <> Quit.KWPanicked ->
  Quit.closed (Quit.ch y) = false /\ Quit.pc y <> Quit.KWPanicked.
Proof.
  intros H; induction H as [x|x y z Hs _ IH]; intros Hc Hp; auto.
  destruct (quit_step_keeps_open x y Hs Hc Hp) as [A B]. auto.
Qed.

(** [select { case quit <- true: default: return }] on an open channel is
    never blocked: it sends (room in the buffer) or returns. *)
Lemma quit_progress (x : Quit.config) :
  Quit.pc x = Quit.KWRunning -> Quit.closed (Quit.ch x) = false ->
  ((Quit.len (Quit.ch x) < Quit.cap (Quit.ch x))%nat /\
     Quit.step x (Quit.mkCfg Quit.KWRunning
                    (Quit.mkChan (S (Quit.len (Quit.ch x))) (Quit.cap (Quit.ch x)) false)
                    (Quit.waiters x)))
  \/
  ((Quit.cap (Quit.ch x) <= Quit.len (Quit.ch x))%nat /\
     Quit.step x (Quit.mkCfg Quit.KWReturned (Quit.ch x) (Quit.waiters x))).
Proof.
  destruct x as [p c w]; simpl; intros -> Hc.
  destruct (Nat.lt_ge_cases (Quit.len c) (Quit.cap c)) as [L|L].
  - left; split; [exact L|]. constructor; auto.
  - right; split; [exact L|]. constructor; auto.
Qed.

(** C9.  In [main] the quit channel's capacity is [max].  From any
    configuration whose channel is open (empty, partly full or full, with
    any number of dispatcher/worker goroutines still able to receive), every
    interleaving of [killWorkers] with those receivers is finite; in every
    reachable configuration the channel stays open, nothing panics, and a
    still running [killWorkers] is never blocked: it either sends into the
    buffer or takes [default] and returns.  The same holds for a second call
    of [killWorkers] made from any configuration reached by the first. *)
Theorem killWorkers_nonblocking (max : nat) (x : Quit.config) :
  Quit.closed (Quit.ch x) = false -> Quit.pc x <> Quit.KWPanicked ->
  Quit.cap (Quit.main_quit max) = max /\
  Acc (fun b a => Quit.step a b) x /\
  (forall y, Quit.star x y ->
     Quit.closed (Quit.ch y) = false /\ Quit.pc y <> Quit.KWPanicked /\
     (Quit.pc y = Quit.KWRunning ->
        Quit.step y (Quit.mkCfg Quit.KWRunning
                       (Quit.mkChan (S (Quit.len (Quit.ch y))) (Quit.cap (Quit.ch y)) false)
                       (Quit.waiters y))
        \/ Quit.step y (Quit.mkCfg Quit.KWReturned (Quit.ch y) (Quit.waiters y))) /\
     Acc (fun b a => Quit.step a b) (Quit.invoke y) /\
     (forall z, Quit.star (Quit.invoke y) z ->
        Quit.closed (Quit.ch z) = false /\ Quit.pc z <> Quit.KWPanicked)).
Proof.
  intros Hc Hp.
  split; [reflexivity|].
  split; [apply quit_step_acc|].
  intros y Hy.
  destruct (quit_star_keeps_open x y Hy Hc Hp) as [Cy Py].
  split; [exact Cy|]. split; [exact Py|].
  split.
  - intros Hr. destruct (quit_progress y Hr Cy) as [[_ S1]|[_ S2]]; [left|right]; assumption.
  - split; [apply quit_step_acc|].
    intros z Hz. apply (quit_star_keeps_open (Quit.invoke y) z Hz); simpl; auto.
    discriminate.
Qed.

Lemma killWorkers_nonblocking_witness :
  Quit.cap (Quit.main_quit 5) = 5%nat /\
  Acc (fun b a => Quit.step a b) (Quit.mkCfg Quit.KWRunning (Quit.main_quit 5) 6) /\
  (forall y, Quit.star (Quit.mkCfg Quit.KWRunning (Quit.main_quit 5) 6) y ->
     Quit.closed (Quit.ch y) = false /\ Quit.pc y <> Quit.KWPanicked /\
     (Quit.pc y = Quit.KWRunning ->
        Quit.step y (Quit.mkCfg Quit.KWRunning
                       (Quit.mkChan (S (Quit.len (Quit.ch y))) (Quit.cap (Quit.ch y)) false)
                       (Quit.waiters y))
        \/ Quit.step y (Quit.mkCfg Quit.KWReturned (Quit.ch y) (Quit.waiters y))) /\
     Acc (fun b a => Quit.step a b) (Quit.invoke y) /\
     (forall z, Quit.star (Quit.invoke y) z ->
        Quit.closed (Quit.ch z) = false /\ Quit.pc z <> Quit.KWPanicked)).
Proof.
  apply (killWorkers_nonblocking 5 (Quit.mkCfg Quit.KWRunning (Quit.main_quit 5) 6)).
  - reflexivity.
  - discriminate.
Defined.


(** * Further properties of the code *)

(** ** checkFlags *)

Lemma checkFlags_ok_iff (maxCPU : Z) (c : Flags.config) (u : Flags.parsed) :
  (exists c' ws, Flags.checkFlags maxCPU c u = Flags.Ok c' ws) <->
  (0 < Flags.reqs c /\ 0 < Flags.max c /\ (Flags.maxErr c = -1 \/ 0 < Flags.maxErr c) /\
   Flags.urlStr c <> EmptyString /\
   exists s, u = Flags.URLOk s /\ (s = "http"%string \/ s = "https"%string)).
Proof.
  split.
  - intros (c' & ws & H). unfold Flags.checkFlags in H.
    destruct u as [s|m]; [|discriminate].
    destruct (Flags.reqs c <=? 0) eqn:E1, (Flags.max c <=? 0) eqn:E2,
      ((Flags.maxErr c =? 0) || (Flags.maxErr c <? -1)) eqn:E3,
      (String.eqb (Flags.urlStr c) EmptyString) eqn:E4,
      (negb (String.eqb s "http") && negb (String.eqb s "https")) eqn:E5;
      simpl in H; try discriminate.
    apply Z.leb_gt in E1; apply Z.leb_gt in E2.
    apply orb_false_iff in E3 as [E3a E3b].
    apply Z.eqb_neq in E3a; apply Z.ltb_ge in E3b.
    apply String.eqb_neq in E4.
    repeat split; try lia; auto.
    exists s; split; [reflexivity|].
    destruct (String.eqb s "http") eqn:Eh; [left; apply String.eqb_eq; exact Eh|].
    destruct (String.eqb s "https") eqn:Ehs; [right; apply String.eqb_eq; exact Ehs|].
    discriminate.
  - intros (H1 & H2 & H3 & H4 & s & -> & H5).
    unfold Flags.checkFlags.
    replace (Flags.reqs c <=? 0) with false by (symmetry; apply Z.leb_gt; lia).
    replace (Flags.max c <=? 0) with false by (symmetry; apply Z.leb_gt; lia).
    replace ((Flags.maxErr c =? 0) || (Flags.maxErr c <? -1)) with false
      by (symmetry; apply orb_false_iff; split; [apply Z.eqb_neq | apply Z.ltb_ge]; lia).
    replace (String.eqb (Flags.urlStr c) EmptyString) with false
      by (symmetry; apply String.eqb_neq; exact H4).
    destruct H5 as [-> | ->]; simpl;
      repeat match goal with |- context [if ?b then _ else _] => destruct b end;
      eauto.
Qed.

Ltac zbool :=
  repeat match goal with
  | H : (_ <? _) = true |- _ => apply Z.ltb_lt in H
  | H : (_ <? _) = false |- _ => apply Z.ltb_ge in H
  end.

(** [Flags.checkFlags] when every check passes: the configuration it keeps. *)
Lemma checkFlags_ok_unfold (maxCPU : Z) (c : Flags.config) (u : Flags.parsed) (c' : Flags.config)
    (ws : list Flags.warning) :
  Flags.checkFlags maxCPU c u = Flags.Ok c' ws ->
  exists s, u = Flags.URLOk s /\ (s = "http"%string \/ s = "https"%string) /\
  0 < Flags.reqs c /\ 0 < Flags.max c /\ (Flags.maxErr c = -1 \/ 0 < Flags.maxErr c) /\
  Flags.urlStr c <> EmptyString /\
  Flags.Ok c' ws =
  (let '(n1, w1) := if maxCPU <? Flags.numCPU c
                    then (maxCPU, [Flags.CpuWarn (Flags.numCPU c) maxCPU]) else (Flags.numCPU c, []) in
   let '(n2, w2) := if n1 <? 1 then (1, w1 ++ [Flags.CpuLTE0Warn n1]) else (n1, w1) in
   let '(m, w3) := if Flags.reqs c <? Flags.max c
                   then (Flags.reqs c, w2 ++ [Flags.MaxGTReqsWarn (Flags.max c) (Flags.reqs c)])
                   else (Flags.max c, w2) in
   Flags.Ok (Flags.mkConfig (Flags.reqs c) m n2 (Flags.maxErr c) (Flags.urlStr c)) w3).
Proof.
  intros H.
  destruct (proj1 (checkFlags_ok_iff maxCPU c u) (ex_intro _ c' (ex_intro _ ws H)))
    as (H1 & H2 & H3 & H4 & s & -> & H5).
  exists s; do 6 (split; auto).
  rewrite <- H. unfold Flags.checkFlags.
  replace (Flags.reqs c <=? 0) with false by (symmetry; apply Z.leb_gt; lia).
  replace (Flags.max c <=? 0) with false by (symmetry; apply Z.leb_gt; lia).
  replace ((Flags.maxErr c =? 0) || (Flags.maxErr c <? -1)) with false
    by (symmetry; apply orb_false_iff; split; [apply Z.eqb_neq | apply Z.ltb_ge]; lia).
  replace (String.eqb (Flags.urlStr c) EmptyString) with false
    by (symmetry; apply String.eqb_neq; exact H4).
  destruct H5 as [-> | ->]; reflexivity.
Qed.

Lemma checkFlags_ok_normal (maxCPU : Z) (c : Flags.config) (u : Flags.parsed) (c' : Flags.config)
    (ws : list Flags.warning) :
  1 <= maxCPU ->
  Flags.checkFlags maxCPU c u = Flags.Ok c' ws ->
  Flags.reqs c' = Flags.reqs c /\ 1 <= Flags.reqs c' /\
  Flags.max c' = Z.min (Flags.max c) (Flags.reqs c) /\ 1 <= Flags.max c' <= Flags.reqs c' /\
  Flags.numCPU c' = Z.max 1 (Z.min (Flags.numCPU c) maxCPU) /\ 1 <= Flags.numCPU c' <= maxCPU /\
  Flags.maxErr c' = Flags.maxErr c /\ (Flags.maxErr c' = -1 \/ 1 <= Flags.maxErr c') /\
  Flags.urlStr c' = Flags.urlStr c.
Proof.
  intros Hm H.
  destruct (checkFlags_ok_unfold maxCPU c u c' ws H)
    as (s & _ & _ & H1 & H2 & H3 & _ & E).
  destruct (maxCPU <? Flags.numCPU c) eqn:Ea; simpl in E;
    destruct (_ <? 1) eqn:Eb; simpl in E;
    destruct (Flags.reqs c <? Flags.max c) eqn:Ec; simpl in E;
    injection E as -> ->; simpl; zbool; repeat split; lia.
Qed.

(** [checkFlags] (lines 178-216) lets the program run exactly when
    [reqs > 0], [max > 0], [maxErr] is [-1] or positive, the URL is not
    blank and its scheme is [http] or [https]; otherwise it stops with
    [log.Fatal] or panics. *)
Theorem checkFlags_accepts_iff (maxCPU : Z) (c : Flags.config) (u : Flags.parsed) :
  (exists c' ws, Flags.checkFlags maxCPU c u = Flags.Ok c' ws) <->
  (0 < Flags.reqs c /\ 0 < Flags.max c /\ (Flags.maxErr c = -1 \/ 0 < Flags.maxErr c) /\
   Flags.urlStr c <> EmptyString /\
   exists s, u = Flags.URLOk s /\ (s = "http"%string \/ s = "https"%string)).
Proof. apply checkFlags_ok_iff. Qed.

(** When [checkFlags] accepts the flags, [reqs], [maxErr] and [urlStr] are
    kept, [max] becomes [min(max, reqs)] (so [1 <= max <= reqs]) and
    [numCPU] is clamped into [1 .. maxCPU]: kept when in range, otherwise
    replaced by the nearer bound. *)
Theorem checkFlags_normalizes (maxCPU : Z) (c : Flags.config) (u : Flags.parsed)
    (c' : Flags.config) (ws : list Flags.warning) :
  1 <= maxCPU ->
  Flags.checkFlags maxCPU c u = Flags.Ok c' ws ->
  Flags.reqs c' = Flags.reqs c /\ 1 <= Flags.reqs c' /\
  Flags.max c' = Z.min (Flags.max c) (Flags.reqs c) /\ 1 <= Flags.max c' <= Flags.reqs c' /\
  Flags.numCPU c' = Z.max 1 (Z.min (Flags.numCPU c) maxCPU) /\ 1 <= Flags.numCPU c' <= maxCPU /\
  Flags.maxErr c' = Flags.maxErr c /\ (Flags.maxErr c' = -1 \/ 1 <= Flags.maxErr c') /\
  Flags.urlStr c' = Flags.urlStr c.
Proof. apply checkFlags_ok_normal. Qed.

(** ** dispatcher *)

(** With a request that [http.NewRequest] built without error, the
    dispatcher hands the same request, with the [User-Agent] header added,
    to a worker [k <= reqs] times and never panics or logs.  Then either it
    returns and closes [reqChan], because [quit] was ready at iteration
    [k] or [k = reqs]; or, [quit] not being ready, no worker ever takes the
    request of iteration [k], and the dispatcher blocks there forever
    without closing [reqChan]. *)
Theorem dispatcher_sends_prefix_then_closes_or_blocks (reqs : Z) (q : Dispatcher.Request)
    (quitReady sendTaken : nat -> bool) :
  exists k, (k <= Z.to_nat reqs)%nat /\
    (forall j, (j < k)%nat -> quitReady j = false /\ sendTaken j = true) /\
    ((Dispatcher.dispatcher reqs (Some q, None) quitReady sendTaken
        = Dispatcher.DReturned
            (repeat (Dispatcher.DSend
                       (Dispatcher.mkRequest (Dispatcher.Header q ++
                          [("User-Agent"%string, Dispatcher.app_version)]))) k
             ++ [Dispatcher.DClose]) /\
      ((k < Z.to_nat reqs)%nat -> quitReady k = true))
     \/
     ((k < Z.to_nat reqs)%nat /\ quitReady k = false /\ sendTaken k = false /\
      Dispatcher.dispatcher reqs (Some q, None) quitReady sendTaken
        = Dispatcher.DBlocked
            (repeat (Dispatcher.DSend
                       (Dispatcher.mkRequest (Dispatcher.Header q ++
                          [("User-Agent"%string, Dispatcher.app_version)]))) k))).
Proof.
  destruct (dispatcher_loop_prefix q quitReady sendTaken (Z.to_nat reqs) 0 [])
    as (k & Hk & A & B).
  exists k; split; [exact Hk|]. split; [exact A|]. exact B.
Qed.

Lemma consumer_step_fired (maxErr : Z) (r : response) (s : cstate) :
  (forall s', consumer_step maxErr r s = Continue s' -> fired s' = fired s) /\
  (forall s', consumer_step maxErr r s = Crash s' -> fired s' = fired s) /\
  (forall s', consumer_step maxErr r s = Stop s' ->
     fired s' = S (fired s) /\ maxErr <> -1 /\ maxErr <= numErr s' /\
     exists l, logs s' = l ++ [LogErrLimit (numErr s')]).
Proof.
  destruct r as [[R|] [e|]]; unfold_step; split_ifs; simpl;
    (split; [|split]); intros s1 Hs1; try discriminate;
    injection Hs1 as <-; simpl; auto;
    match goal with
    | H : _ && _ = true |- _ =>
        apply andb_true_iff in H as [Ha Hb];
        apply Z.leb_le in Ha; apply negb_true_iff, Z.eqb_neq in Hb
    end;
    repeat split; auto; eexists; reflexivity.
Qed.

Lemma consumer_loop_fired (maxErr : Z) (rs : list response) (s : cstate) :
  fired s = 0%nat ->
  (fired (final (consumer_loop maxErr rs s)) <= 1)%nat /\
  (fired (final (consumer_loop maxErr rs s)) = 1%nat ->
     exists s', consumer_loop maxErr rs s = Returned s' /\ maxErr <> -1 /\
       maxErr <= numErr s' /\ exists l, logs s' = l ++ [LogErrLimit (numErr s')]).
Proof.
  revert s; induction rs as [|r rs IH]; intros s H0; simpl.
  - rewrite H0; split; [lia | discriminate].
  - destruct (consumer_step_fired maxErr r s) as (A & B & C).
    destruct (consumer_step maxErr r s) as [s'|s'|s'] eqn:E.
    + apply IH. rewrite (A s' eq_refl). exact H0.
    + destruct (C s' eq_refl) as (F & Hm & Hn & Hl). simpl.
      rewrite F, H0. split; [lia|]. intros _. exists s'; auto.
    + simpl. rewrite (B s' eq_refl), H0. split; [lia | discriminate].
Qed.


(** ** consumer *)

(** [killWorkers] is called at most once by the consumer; if it is called,
    the consumer returned normally right after it, the threshold is not
    [-1], [numErr] reached [maxErr], and the last log line is the error
    limit message. *)
Theorem consumer_fires_at_most_once (maxErr : Z) (rs : list response) :
  (fired (final (consumer maxErr rs)) <= 1)%nat /\
  (fired (final (consumer maxErr rs)) = 1%nat ->
     exists s, consumer maxErr rs = Returned s /\ maxErr <> -1 /\
       maxErr <= numErr s /\ exists l, logs s = l ++ [LogErrLimit (numErr s)]).
Proof. apply consumer_loop_fired. reflexivity. Qed.

Lemma count_failures_app1 (pre : list response) (r : response) :
  count_failures (pre ++ [r]) = count_failures pre + (if is_failure r then 1 else 0).
Proof.
  induction pre as [|x pre IH]; simpl.
  - destruct (is_failure r); reflexivity.
  - rewrite IH. ring.
Qed.

Lemma count_failures_bounds (rs : list response) :
  0 <= count_failures rs <= Z.of_nat (List.length rs).
Proof.
  induction rs as [|r rs IH]; simpl; [lia|].
  destruct (is_failure r); lia.
Qed.

(** [numErr] counts the failures (transport errors and status codes
    [>= 400]) among the records the consumer took from [respChan]. *)
Theorem consumer_error_count (maxErr : Z) (rs : list response) :
  Z.of_nat (List.length rs) < 2 ^ 63 ->
  numErr (final (consumer maxErr rs))
    = count_failures (firstn (drained (final (consumer maxErr rs))) rs).
Proof.
  intros Hlen.
  assert (W : numErr (final (consumer maxErr rs))
              = wrap64 (count_failures (firstn (drained (final (consumer maxErr rs))) rs))).
  { apply (consumer_invariant maxErr
             (fun s pre => numErr s = wrap64 (count_failures pre))
             (fun s pre => numErr s = wrap64 (count_failures pre))
             (fun _ => True)); auto using Forall_True.
    intros s pre r _ H.
    assert (Hs : numErr (step_state (consumer_step maxErr r s))
                 = wrap64 (count_failures (pre ++ [r]))).
    { rewrite count_failures_app1.
      destruct r as [[R|] [e|]]; unfold is_failure; unfold_step; split_ifs;
        simpl; rewrite ?H, ?wrap64_add_wrap, ?Z.add_0_r; try reflexivity; lia. }
    split; [exact Hs|].
    intros s' E. rewrite E in Hs. exact Hs. }
  rewrite W. apply wrap64_id.
  pose proof (count_failures_bounds (firstn (drained (final (consumer maxErr rs))) rs)) as B.
  pose proof (length_firstn (drained (final (consumer maxErr rs))) rs) as L.
  unfold in_int64. lia.
Qed.

(** For a positive threshold, the consumer never lets [numErr] exceed
    [maxErr]. *)
Theorem consumer_numErr_le_maxErr (maxErr : Z) (rs : list response) :
  1 <= maxErr < 2 ^ 63 ->
  0 <= numErr (final (consumer maxErr rs)) <= maxErr.
Proof.
  intros Hm.
  apply (consumer_invariant maxErr
           (fun s _ => 0 <= numErr s < maxErr)
           (fun s _ => 0 <= numErr s <= maxErr)
           (fun _ => True)); [intros s pre H; lia | | apply Forall_True | simpl; lia].
  intros s pre r _ H.
    assert (W : wrap64 (numErr s + 1) = numErr s + 1) by (apply wrap64_id; unfold in_int64; lia).
    destruct r as [[R|] [e|]]; unfold_step; split_ifs; simpl; rewrite ?W;
      (split; [lia|]); intros s1 Hs1; try discriminate; injection Hs1 as <-; simpl; rewrite ?W;
      try lia;
      match goal with H : _ && _ = false |- _ =>
        simpl in H; rewrite ?W in H; apply andb_false_iff in H as [H|H];
        [apply Z.leb_gt in H | apply negb_false_iff, Z.eqb_eq in H]; lia end.
Qed.

Lemma response_step_continues (maxErr : Z) (R : Response) (s : cstate) :
  maxErr = -1 \/ (0 <= numErr s /\ numErr s + 1 < maxErr < 2 ^ 63) ->
  exists s1, consumer_step maxErr (mkresponse (Some R) None) s = Continue s1 /\
    closedBodies s1 = closedBodies s ++ [Body R] /\
    drained s1 = S (drained s) /\
    (maxErr = -1 \/ numErr s <= numErr s1 <= numErr s + 1).
Proof.
  intros Hm.
  unfold_step; split_ifs; simpl in *;
    try (match goal with H : _ && _ = true |- _ =>
      exfalso; apply andb_true_iff in H as [Ha Hb]; apply Z.leb_le in Ha;
      apply negb_true_iff, Z.eqb_neq in Hb;
      destruct Hm as [Hm|Hm]; [contradiction|];
      rewrite wrap64_id in Ha; unfold in_int64; lia end);
    eexists; (split; [reflexivity|]); simpl;
    (split; [reflexivity|]); (split; [reflexivity|]);
    (destruct Hm as [->|Hm]; [now left | right; rewrite ?wrap64_id; unfold in_int64; lia]).
Qed.

Lemma response_loop_closes_all (maxErr : Z) (Rs : list Response) (s : cstate) :
  maxErr = -1 \/ (0 <= numErr s /\ numErr s + Z.of_nat (List.length Rs) < maxErr < 2 ^ 63) ->
  exists s', consumer_loop maxErr (map (fun R => mkresponse (Some R) None) Rs) s = Returned s' /\
    closedBodies s' = closedBodies s ++ map Body Rs /\
    drained s' = (drained s + List.length Rs)%nat.
Proof.
  revert s; induction Rs as [|R Rs IH]; intros s Hm; simpl.
  - exists s; rewrite app_nil_r, Nat.add_0_r; auto.
  - cbn [List.length] in Hm; rewrite Nat2Z.inj_succ in Hm.
    destruct (response_step_continues maxErr R s) as (s1 & E & Hc & Hd & Hn).
    { destruct Hm as [Hm|Hm]; [now left | right; lia]. }
    rewrite E.
    destruct (IH s1) as (s' & E' & Hc' & Hd').
    { destruct Hm as [Hm|Hm]; [now left|].
      destruct Hn as [Hn|Hn]; [lia|]. right; lia. }
    exists s'; split; [exact E'|]. rewrite Hc', Hc, <- app_assoc, Hd'. simpl.
    split; [reflexivity | lia].
Qed.

(** When every record carries a response and no error and the threshold
    cannot be reached, the consumer drains every record, returns normally,
    and closes every body, in order. *)
Theorem consumer_closes_every_body (maxErr : Z) (Rs : list Response) :
  maxErr = -1 \/ Z.of_nat (List.length Rs) < maxErr < 2 ^ 63 ->
  exists s, consumer maxErr (map (fun R => mkresponse (Some R) None) Rs) = Returned s /\
    closedBodies s = map Body Rs /\ drained s = List.length Rs.
Proof.
  intros Hm.
  destruct (response_loop_closes_all maxErr Rs cinit) as (s & E & Hc & Hd).
  { destruct Hm as [Hm|Hm]; [now left | right; simpl; lia]. }
  exists s. simpl in Hc, Hd. split; [exact E|]. split; [exact Hc|]. exact Hd.
Qed.

(** ** killWorkers with no goroutine left to receive *)

Lemma kw_alone_step (k : nat) (x y : Quit.config) :
  Quit.step x y -> kw_alone_inv k x -> kw_alone_inv k y.
Proof.
  unfold kw_alone_inv; intros H (W & C & K & L & P & R); destruct H; simpl in *;
    try discriminate; try congruence.
  - subst. repeat split; auto; try lia; discriminate.
  - repeat split; auto; try discriminate. intros _; lia.
Qed.

Lemma kw_alone_star (k : nat) (x y : Quit.config) :
  Quit.star x y -> kw_alone_inv k x -> kw_alone_inv k y.
Proof.
  induction 1 as [x|x y z Hs _ IH]; intros Hx; auto.
  apply IH, (kw_alone_step k x y Hs Hx).
Qed.

Lemma kw_alone_reaches (k : nat) (n l : nat) :
  (l + n = k)%nat ->
  Quit.star (Quit.mkCfg Quit.KWRunning (Quit.mkChan l k false) 0)
            (Quit.mkCfg Quit.KWReturned (Quit.mkChan k k false) 0).
Proof.
  revert l; induction n as [|n IH]; intros l Hl.
  - rewrite Nat.add_0_r in Hl; subst.
    eapply Quit.star_step; [apply Quit.kw_default; simpl; auto|]. apply Quit.star_refl.
  - eapply Quit.star_step; [apply (Quit.kw_send_buffered (Quit.mkChan l k false)); simpl; auto; lia|].
    simpl. apply IH. lia.
Qed.

(** With no receiver on [quit], [killWorkers] fills the open buffer to
    its capacity and returns; it never panics, and every run that returns
    leaves the buffer exactly full. *)
Theorem killWorkers_alone_fills_buffer (l k : nat) :
  (l <= k)%nat ->
  Quit.star (Quit.mkCfg Quit.KWRunning (Quit.mkChan l k false) 0)
            (Quit.mkCfg Quit.KWReturned (Quit.mkChan k k false) 0) /\
  (forall y, Quit.star (Quit.mkCfg Quit.KWRunning (Quit.mkChan l k false) 0) y ->
     Quit.pc y <> Quit.KWPanicked /\
     (Quit.pc y = Quit.KWReturned -> y = Quit.mkCfg Quit.KWReturned (Quit.mkChan k k false) 0)).
Proof.
  intros Hl. split.
  - apply (kw_alone_reaches k (k - l) l). lia.
  - intros y Hy.
    destruct (kw_alone_star k _ y Hy) as (W & C & K & L & P & R).
    { repeat split; simpl; auto; discriminate. }
    split; [exact P|]. intros Hr.
    destruct y as [p [yl yk yc] w]; simpl in *. subst.
    rewrite (R eq_refl). reflexivity.
Qed.

(** ** Instances *)

Lemma checkFlags_normalizes_witness :
  Flags.reqs (Flags.mkConfig 50 50 4 1 "http://localhost/") = 50 /\ 1 <= 50 /\
  Flags.max (Flags.mkConfig 50 50 4 1 "http://localhost/") = Z.min 100 50 /\
  1 <= Flags.max (Flags.mkConfig 50 50 4 1 "http://localhost/") <= Flags.reqs (Flags.mkConfig 50 50 4 1 "http://localhost/") /\
  Flags.numCPU (Flags.mkConfig 50 50 4 1 "http://localhost/") = Z.max 1 (Z.min 8 4) /\
  1 <= Flags.numCPU (Flags.mkConfig 50 50 4 1 "http://localhost/") <= 4 /\
  Flags.maxErr (Flags.mkConfig 50 50 4 1 "http://localhost/") = 1 /\
  (Flags.maxErr (Flags.mkConfig 50 50 4 1 "http://localhost/") = -1 \/ 1 <= Flags.maxErr (Flags.mkConfig 50 50 4 1 "http://localhost/")) /\
  Flags.urlStr (Flags.mkConfig 50 50 4 1 "http://localhost/") = "http://localhost/"%string.
Proof.
  apply (checkFlags_normalizes 4 (Flags.mkConfig 50 100 8 1 "http://localhost/")
           (Flags.URLOk "http") (Flags.mkConfig 50 50 4 1 "http://localhost/")
           [Flags.CpuWarn 8 4; Flags.MaxGTReqsWarn 100 50]).
  - lia.
  - vm_compute. reflexivity.
Defined.

Lemma consumer_error_count_witness :
  numErr (final (consumer 2 [mkresponse (Some (mkResponse 200 10 1)) None;
                             mkresponse (Some (mkResponse 500 0 2)) None;
                             mkresponse None (Some "dial tcp: connection refused"%string)]))
  = count_failures (firstn (drained (final (consumer 2
      [mkresponse (Some (mkResponse 200 10 1)) None;
       mkresponse (Some (mkResponse 500 0 2)) None;
       mkresponse None (Some "dial tcp: connection refused"%string)])))
      [mkresponse (Some (mkResponse 200 10 1)) None;
       mkresponse (Some (mkResponse 500 0 2)) None;
       mkresponse None (Some "dial tcp: connection refused"%string)]).
Proof.
  apply consumer_error_count. vm_compute. reflexivity.
Defined.

Lemma consumer_numErr_le_maxErr_witness :
  0 <= numErr (final (consumer 2 [mkresponse (Some (mkResponse 200 10 1)) None;
                                  mkresponse (Some (mkResponse 500 0 2)) None;
                                  mkresponse None (Some "dial tcp: connection refused"%string)]))
    <= 2.
Proof.
  apply consumer_numErr_le_maxErr. split; [lia | vm_compute; reflexivity].
Defined.

Lemma consumer_closes_every_body_witness :
  exists s, consumer 3 (map (fun R => mkresponse (Some R) None)
                          [mkResponse 200 10 7; mkResponse 404 0 8]) = Returned s /\
    closedBodies s = [7%nat; 8%nat] /\ drained s = 2%nat.
Proof.
  apply (consumer_closes_every_body 3 [mkResponse 200 10 7; mkResponse 404 0 8]).
  right. split; [simpl; lia | vm_compute; reflexivity].
Defined.

Lemma killWorkers_alone_fills_buffer_witness :
  Quit.star (Quit.mkCfg Quit.KWRunning (Quit.mkChan 1 3 false) 0)
            (Quit.mkCfg Quit.KWReturned (Quit.mkChan 3 3 false) 0) /\
  (forall y, Quit.star (Quit.mkCfg Quit.KWRunning (Quit.mkChan 1 3 false) 0) y ->
     Quit.pc y <> Quit.KWPanicked /\
     (Quit.pc y = Quit.KWReturned -> y = Quit.mkCfg Quit.KWReturned (Quit.mkChan 3 3 false) 0)).
Proof.
  apply killWorkers_alone_fills_buffer. lia.
Defined.
